(** * Request descriptors of manifest: [manifest/request.py]

    A shallow embedding of the request classes ([Request], [LMRequest],
    [LMChatRequest], [LMScoreRequest], [EmbeddingRequest],
    [DiffusionRequest]) and of [Request.to_dict], the operation that turns a
    request into the keyword dictionary handed to a backend.

    Python dictionaries keep insertion order and hold one entry per key, so
    they are association lists built with [dict_setitem]; the allow-list is
    only read through [keys()] and [get], so it is a [gmap]; the include set
    is a [gset]. *)

From Stdlib Require Import ZArith Floats.SpecFloat.
From stdpp Require Import gmap strings list.

Local Open Scope string_scope.
Local Open Scope Z_scope.
Local Open Scope list_scope.

(** ** Python values *)

Module Py.

(** The values a request field can hold.  A [float] is an IEEE-754 binary64
    number, an [int] is unbounded. *)
#[warnings="-register-all"]
Inductive value : Type :=
| VNone
| VStr (s : string)
| VInt (z : Z)
| VFloat (f : spec_float)
| VBool (b : bool)
| VList (l : list value)
| VDict (d : list (string * value)).

(** [v is None]. *)
Definition is_none (v : value) : bool :=
  match v with VNone => true | _ => false end.

(** Truth value of a string: only the empty string is falsy. *)
Definition str_truthy (s : string) : bool :=
  match s with EmptyString => false | String _ _ => true end.

(** The annotations used in the field declarations. *)
Inductive annotation : Type :=
| TStr | TInt | TFloat | TBool
| TOptional (t : annotation)
| TList (t : annotation)
| TDict (k v : annotation)
| TUnion (a b : annotation).

(** Whether a value is an instance of an annotated type ([bool] is a
    subclass of [int], and an [int] is accepted where a [float] is
    declared). *)
Fixpoint conforms (t : annotation) (v : value) : bool :=
  match t, v with
  | TStr, VStr _ => true
  | TInt, (VInt _ | VBool _) => true
  | TFloat, (VFloat _ | VInt _ | VBool _) => true
  | TBool, VBool _ => true
  | TOptional _, VNone => true
  | TOptional t', _ => conforms t' v
  | TList t', VList l => forallb (conforms t') l
  | TDict tk tv, VDict d =>
      forallb (λ kv, conforms tk (VStr kv.1) && conforms tv kv.2) d
  | TUnion a b, _ => conforms a v || conforms b v
  | _, _ => false
  end.

(** *** Insertion-ordered dictionaries with string keys *)

Section dict.
Context {V : Type}.

(** [d[k] = v]: an existing key keeps its place and takes the new value, a
    new key goes to the end. *)
Fixpoint dict_setitem (k : string) (v : V) (d : list (string * V))
  : list (string * V) :=
  match d with
  | [] => [(k, v)]
  | (k', v') :: d' =>
      if decide (k' = k) then (k', v) :: d'
      else (k', v') :: dict_setitem k v d'
  end.

(** [d.get(k)]. *)
Fixpoint dict_get (k : string) (d : list (string * V)) : option V :=
  match d with
  | [] => None
  | (k', v') :: d' => if decide (k' = k) then Some v' else dict_get k d'
  end.

(** [{key(k, v): val(k, v) for k, v in items if cond(k, v)}]: the entries
    are written one after the other, in the order of [items]. *)
Definition dict_comprehension {A : Type}
    (key : A → string) (val : A → V) (cond : A → bool) (items : list A)
  : list (string * V) :=
  foldl (λ acc x, if cond x then dict_setitem (key x) (val x) acc else acc)
        [] items.

(** [a == b] on dictionaries: the same keys with the same values, in any
    order. *)
Definition dict_equal (a b : list (string * V)) : Prop :=
  ∀ k, dict_get k a = dict_get k b.
End dict.

Definition dict_keys {V : Type} (d : list (string * V)) : list string := d.*1.

End Py.

Import Py.

(** ** Module constants *)

Definition ENGINE_SEP : string := "::".

Definition NOT_CACHE_KEYS : gset string := {["client_timeout"; "batch_size"]}.

Definition DEFAULT_REQUEST_KEYS : gmap string (string * value) :=
  <["client_timeout" := ("client_timeout", VInt 60)]>
  (<["batch_size" := ("batch_size", VInt 8)]>
  (<["run_id" := ("run_id", VNone)]> ∅)).

(** ** The request classes *)

(** The float literals of the field defaults, as binary64 numbers. *)
Definition float_0_0 : spec_float := S754_zero false.
Definition float_0_7 : spec_float := S754_finite false 0x16666666666666 (-53).
Definition float_0_9 : spec_float := S754_finite false 0x1ccccccccccccd (-53).
Definition float_1_0 : spec_float := S754_finite false 0x10000000000000 (-52).
Definition float_7_5 : spec_float := S754_finite false 0x1e000000000000 (-50).

Inductive request_class : Type :=
| Request
| LMRequest
| LMChatRequest
| LMScoreRequest
| EmbeddingRequest
| DiffusionRequest.

(** A field declaration [name: annotation = default]. *)
Definition declaration : Type := string * (annotation * value).

(** The class bodies, in declaration order. *)
Definition Request_body : list declaration :=
  [ ("prompt", (TUnion TStr (TList TStr), VStr ""));
    ("engine", (TStr, VStr "text-ada-001"));
    ("n", (TInt, VInt 1));
    ("client_timeout", (TInt, VInt 120));
    ("run_id", (TOptional TStr, VNone));
    ("batch_size", (TInt, VInt 8)) ].

Definition LMRequest_body : list declaration :=
  [ ("temperature", (TFloat, VFloat float_0_7));
    ("max_tokens", (TInt, VInt 100));
    ("max_new_tokens", (TInt, VInt 20));
    ("top_p", (TFloat, VFloat float_1_0));
    ("top_k", (TInt, VInt 50));
    ("logprobs", (TOptional TInt, VNone));
    ("stop_sequences", (TOptional (TList TStr), VNone));
    ("num_beams", (TInt, VInt 1));
    ("do_sample", (TBool, VBool false));
    ("repetition_penalty", (TFloat, VFloat float_1_0));
    ("length_penalty", (TFloat, VFloat float_1_0));
    ("presence_penalty", (TFloat, VInt 0));
    ("frequency_penalty", (TFloat, VInt 0)) ].

Definition LMChatRequest_body : list declaration :=
  [ ("prompt", (TList (TDict TStr TStr), VDict [])) ].

Definition DiffusionRequest_body : list declaration :=
  [ ("num_inference_steps", (TInt, VInt 50));
    ("height", (TInt, VInt 512));
    ("width", (TInt, VInt 512));
    ("guidance_scale", (TFloat, VFloat float_7_5));
    ("eta", (TFloat, VFloat float_0_0)) ].

(** A subclass starts from the fields of its base class; a field it declares
    again keeps its place and takes the new declaration, a new field is
    added after the inherited ones. *)
Definition inherit (base body : list declaration) : list declaration :=
  foldl (λ acc d, dict_setitem d.1 d.2 acc) base body.

Definition Request_fields : list declaration := inherit [] Request_body.
Definition LMRequest_fields : list declaration :=
  inherit Request_fields LMRequest_body.

Definition fields (cls : request_class) : list declaration :=
  match cls with
  | Request => Request_fields
  | LMRequest => LMRequest_fields
  | LMChatRequest => inherit LMRequest_fields LMChatRequest_body
  | LMScoreRequest => inherit LMRequest_fields []
  | EmbeddingRequest => inherit Request_fields []
  | DiffusionRequest => inherit Request_fields DiffusionRequest_body
  end.

(** A request object is its attribute dictionary: one entry per field, in the
    order of the class's fields. *)
Definition request : Type := list (string * value).

(** The values that validation of a field of the given type rejects for
    certain (only what the [Union] of [Request.prompt] needs: a [str] field
    takes no list and no dictionary). *)
Definition rejects (t : annotation) (v : value) : bool :=
  match t, v with
  | TStr, (VList _ | VDict _) => true
  | _, _ => false
  end.

(** The values that validation of a field of the given type returns as they
    are: values of exactly the declared type, with nothing to coerce (so no
    [bool] or [str] for an [int], no [int] for a [float]); the members of a
    [Union] are tried from left to right. *)
Fixpoint strictly_typed (t : annotation) (v : value) : bool :=
  match t, v with
  | TStr, VStr _ => true
  | TInt, VInt _ => true
  | TFloat, VFloat _ => true
  | TBool, VBool _ => true
  | TOptional _, VNone => true
  | TOptional t', _ => strictly_typed t' v
  | TList t', VList l => forallb (strictly_typed t') l
  | TDict tk tv, VDict d =>
      forallb (λ kv, strictly_typed tk (VStr kv.1) && strictly_typed tv kv.2) d
  | TUnion a b, _ => strictly_typed a v || (rejects a v && strictly_typed b v)
  | _, _ => false
  end.

(** Keyword overrides that construction takes as they are: each one that
    names a field of the class holds a value of exactly the field's type. *)
Definition overrides_well_typed (cls : request_class)
    (overrides : list (string * value)) : bool :=
  forallb (λ kv : string * value,
             match dict_get kv.1 (fields cls) with
             | Some (t, _) => strictly_typed t kv.2
             | None => true
             end)
          overrides.

(** Construction with keyword overrides that are [overrides_well_typed]
    (with none in particular): every field takes the supplied value when
    there is one and its declared default otherwise (the default is used as
    written, it is not validated); keywords that name no field are ignored.
    Overrides of another type, which construction would coerce or refuse
    with a validation error, are outside this definition. *)
Definition construct (cls : request_class) (overrides : list (string * value))
  : request :=
  map (λ d : declaration, (d.1, default d.2.2 (dict_get d.1 overrides)))
      (fields cls).

(** [self.dict(include=include)]: the fields named by [include], every field
    when [include] is [None], in field order. *)
Definition dict (self : request) (include : option (gset string))
  : list (string * value) :=
  match include with
  | None => self
  | Some keys => filter (λ kv, kv.1 ∈ keys) self
  end.

(** ** [Request.to_dict] *)

(** The two names bound by the [if allowable_keys: ... else: ...] statement:
    the allow-list used for renaming and the include set. *)
Definition to_dict_keys (allowable_keys : option (gmap string (string * value)))
    (add_prompt : bool)
  : gmap string (string * value) * option (gset string) :=
  match allowable_keys with
  | Some ak =>
      if bool_decide (ak ≠ ∅) then
        let include_keys := dom ak in
        let include_keys :=
          if add_prompt && str_truthy "prompt"
          then include_keys ∪ {["prompt"]} else include_keys in
        (ak, Some include_keys)
      else (∅, None)
  | None => (∅, None)
  end.

(** [allowable_keys.get(k, (k, None))[0]]. *)
Definition external_name (allowable_keys : gmap string (string * value))
    (k : string) : string :=
  (default (k, VNone) (allowable_keys !! k)).1.

(** The result: the candidate fields that hold a value other than [None],
    each under its external name, written in field order. *)
Definition to_dict (self : request)
    (allowable_keys : option (gmap string (string * value)))
    (add_prompt : bool) : list (string * value) :=
  let '(allowable_keys, include_keys) :=
    to_dict_keys allowable_keys add_prompt in
  dict_comprehension
    (λ kv, external_name allowable_keys kv.1)
    (λ kv, kv.2)
    (λ kv, negb (is_none kv.2))
    (dict self include_keys).

(** The include set and the renaming table of a call, and the fields that
    are candidates for the result. *)
Definition include_keys (allowable_keys : option (gmap string (string * value)))
    (add_prompt : bool) : option (gset string) :=
  (to_dict_keys allowable_keys add_prompt).2.

Definition renaming (allowable_keys : option (gmap string (string * value)))
    (add_prompt : bool) : gmap string (string * value) :=
  (to_dict_keys allowable_keys add_prompt).1.

Definition candidate (allowable_keys : option (gmap string (string * value)))
    (add_prompt : bool) (k : string) : Prop :=
  match include_keys allowable_keys add_prompt with
  | None => True
  | Some keys => k ∈ keys
  end.

(** The items of the comprehension that pass its [if v is not None] test:
    the candidate fields holding a value, in field order. *)
Definition emitted (self : request)
    (allowable_keys : option (gmap string (string * value)))
    (add_prompt : bool) : list (string * value) :=
  filter (λ kv, negb (is_none kv.2) = true)
         (dict self (include_keys allowable_keys add_prompt)).

(** ** [to_dict] on the object store

    The same method, statement by statement, on a store of mutable objects:
    the request, the allow-list, the include set and the result dictionary
    are objects, arguments and local variables are references.  A location is
    an index into the store and allocation appends to it. *)

Module Exec.

Inductive object : Type :=
| ORequest (attrs : list (string * value))
| OAllow (entries : gmap string (string * value))
| OSet (elems : gset string)
| ODict (entries : list (string * value)).

Inductive ref : Type :=
| RNone
| RObj (l : nat).

(** An argument outside its annotated type is reported as [TypeError] (the
    model does not follow what Python would go on to do with it); a
    reference to a location outside the store is [Dangling]. *)
Inductive exn : Type :=
| TypeError
| Dangling.

Inductive result (A : Type) : Type :=
| Ok (a : A)
| Raise (e : exn).
Arguments Ok {A} a.
Arguments Raise {A} e.

Definition M (A : Type) : Type := list object → result A * list object.

#[global] Instance M_ret : MRet M := λ A a h, (Ok a, h).
#[global] Instance M_bind : MBind M := λ A B f m h,
  match m h with
  | (Ok a, h') => f a h'
  | (Raise e, h') => (Raise e, h')
  end.

Definition raise {A : Type} (e : exn) : M A := λ h, (Raise e, h).

Definition alloc (o : object) : M nat := λ h, (Ok (length h), h ++ [o]).

Definition load (l : nat) : M object := λ h,
  match h !! l with
  | Some o => (Ok o, h)
  | None => (Raise Dangling, h)
  end.

Definition store (l : nat) (o : object) : M unit := λ h, (Ok (), <[l := o]> h).

(** [bool(r)]. *)
Definition truthy (r : ref) : M bool :=
  match r with
  | RNone => mret false
  | RObj l =>
      o ← load l;
      mret (match o with
            | ORequest _ => true
            | OAllow m => bool_decide (m ≠ ∅)
            | OSet s => bool_decide (s ≠ ∅)
            | ODict d => bool_decide (d ≠ [])
            end)
  end.

(** [set(r.keys())], a new set object. *)
Definition set_of_keys (r : ref) : M nat :=
  match r with
  | RNone => raise TypeError
  | RObj l =>
      o ← load l;
      match o with
      | OAllow m => alloc (OSet (dom m))
      | _ => raise TypeError
      end
  end.

(** [s.add(x)]. *)
Definition set_add (s : nat) (x : string) : M unit :=
  o ← load s;
  match o with
  | OSet elems => store s (OSet (elems ∪ {[x]}))
  | _ => raise TypeError
  end.

(** [r.get(k, dflt)]. *)
Definition get (r : ref) (k : string) (dflt : string * value)
  : M (string * value) :=
  match r with
  | RNone => raise TypeError
  | RObj l =>
      o ← load l;
      match o with
      | OAllow m => mret (default dflt (m !! k))
      | _ => raise TypeError
      end
  end.

(** [self.dict(include=include).items()]: a new dictionary, of which only
    the items are used. *)
Definition dict_items (self : nat) (include : ref) : M (list (string * value)) :=
  o ← load self;
  match o with
  | ORequest attrs =>
      match include with
      | RNone => mret (dict attrs None)
      | RObj s =>
          o ← load s;
          match o with
          | OSet keys => mret (dict attrs (Some keys))
          | _ => raise TypeError
          end
      end
  | _ => raise TypeError
  end.

(** [d[k] = v]. *)
Definition setitem (d : nat) (k : string) (v : value) : M unit :=
  o ← load d;
  match o with
  | ODict entries => store d (ODict (dict_setitem k v entries))
  | _ => raise TypeError
  end.

Fixpoint for_each {A : Type} (body : A → M unit) (xs : list A) : M unit :=
  match xs with
  | [] => mret ()
  | x :: xs => body x;; for_each body xs
  end.

Definition to_dict (self : nat) (allowable_keys : ref) (add_prompt : bool)
  : M nat :=
  t ← truthy allowable_keys;
  '(allowable_keys, include_keys) ←
    (if t : bool then
       include_keys ← set_of_keys allowable_keys;
       (if add_prompt && str_truthy "prompt"
        then set_add include_keys "prompt" else mret ());;
       mret (allowable_keys, RObj include_keys)
     else
       allowable_keys ← alloc (OAllow ∅);
       mret (RObj allowable_keys, RNone));
  items ← dict_items self include_keys;
  request_dict ← alloc (ODict []);
  for_each (λ kv : string * value,
              if is_none kv.2 then mret ()
              else
                entry ← get allowable_keys kv.1 (kv.1, VNone);
                setitem request_dict entry.1 kv.2)
           items;;
  mret request_dict.

(** What a reference passed as [allowable_keys] denotes in a store, when it
    is [None] or an allow-list. *)
Definition allow_at (h : list object) (r : ref)
  : option (option (gmap string (string * value))) :=
  match r with
  | RNone => Some None
  | RObj l =>
      match h !! l with
      | Some (OAllow m) => Some (Some m)
      | _ => None
      end
  end.

End Exec.

(** ** Proof automation *)

(** Enumerate the entries of a concrete request. *)
Ltac each_field H :=
  vm_compute in H;
  repeat (apply elem_of_cons in H as [H|H]; [injection H as -> ->|]);
  [..|apply elem_of_nil in H; destruct H].

(** Two concrete fields have different external names. *)
Ltac distinct_names Hne :=
  first [destruct Hne; reflexivity | vm_compute; discriminate].

(** * Properties *)

Lemma is_none_true v : is_none v = true ↔ v = VNone.
Proof. destruct v; simpl; split; congruence. Qed.

Lemma is_none_false v : is_none v = false ↔ v ≠ VNone.
Proof. destruct v; simpl; split; congruence. Qed.

Lemma not_none_true v : negb (is_none v) = true ↔ v ≠ VNone.
Proof. rewrite negb_true_iff. apply is_none_false. Qed.

(** ** Facts about dictionaries *)

Section dict_facts.
Context {V : Type}.
Implicit Types (d : list (string * V)) (k : string) (v : V).

Lemma dict_get_setitem k k' v d :
  dict_get k (dict_setitem k' v d)
  = if decide (k' = k) then Some v else dict_get k d.
Proof.
  induction d as [|[k0 v0] d IH]; simpl; [done|].
  destruct (decide (k0 = k')) as [->|Hne]; simpl.
  - by destruct (decide (k' = k)).
  - rewrite IH. destruct (decide (k0 = k)), (decide (k' = k)); congruence.
Qed.

Lemma dict_get_None k d : dict_get k d = None ↔ k ∉ dict_keys d.
Proof.
  unfold dict_keys. induction d as [|[k0 v0] d IH]; simpl.
  - split; [intros _; apply not_elem_of_nil | done].
  - rewrite not_elem_of_cons. destruct (decide (k0 = k)) as [->|Hne].
    + split; [done | intros [? _]; done].
    + rewrite IH. split; [by split | by intros [_ ?]].
Qed.

Lemma dict_get_elem_of k v d : dict_get k d = Some v → (k, v) ∈ d.
Proof.
  induction d as [|[k0 v0] d IH]; simpl; [done|].
  destruct (decide (k0 = k)) as [->|]; intros H.
  - injection H as ->. apply list_elem_of_here.
  - apply list_elem_of_further. auto.
Qed.

Lemma dict_get_unique k v d :
  NoDup (dict_keys d) → (k, v) ∈ d → dict_get k d = Some v.
Proof.
  unfold dict_keys. induction d as [|[k0 v0] d IH]; simpl.
  - intros _ H. by apply elem_of_nil in H.
  - rewrite NoDup_cons, elem_of_cons. intros [Hk0 Hd] [Heq|Hin].
    + injection Heq as -> ->. by rewrite decide_True.
    + destruct (decide (k0 = k)) as [->|]; [|auto].
      exfalso. apply Hk0. exact (list_elem_of_fmap_2' fst d (k, v) k Hin eq_refl).
Qed.

Lemma dict_keys_setitem k v d :
  dict_keys (dict_setitem k v d)
  = if decide (k ∈ dict_keys d) then dict_keys d else dict_keys d ++ [k].
Proof.
  unfold dict_keys. induction d as [|[k0 v0] d IH].
  - destruct (decide (k ∈ ([] : list (string * V)).*1)) as [H|_]; [|done].
    by apply elem_of_nil in H.
  - cbn [dict_setitem]. destruct (decide (k0 = k)) as [->|Hne].
    + destruct (decide (k ∈ ((k, v0) :: d).*1)) as [_|H]; [done|].
      exfalso. apply H. apply list_elem_of_here.
    + rewrite fmap_cons, IH.
      destruct (decide (k ∈ d.*1)) as [Hin|Hin],
               (decide (k ∈ ((k0, v0) :: d).*1)) as [Hin'|Hin']; try done.
      * exfalso. apply Hin'. by apply list_elem_of_further.
      * exfalso. rewrite fmap_cons in Hin'.
        apply elem_of_cons in Hin' as [?|?]; [by subst | done].
Qed.

Lemma dict_setitem_NoDup k v d :
  NoDup (dict_keys d) → NoDup (dict_keys (dict_setitem k v d)).
Proof.
  intros Hd. rewrite dict_keys_setitem. case_decide; [done|].
  apply NoDup_app. split_and!; [done| |apply NoDup_singleton].
  intros x Hx ->%list_elem_of_singleton. done.
Qed.

Section comprehension.
Context {A : Type} (key : A → string) (val : A → V) (cond : A → bool).

(** The entry under [k] is the one written last. *)
Lemma dict_get_comprehension (items : list A) k :
  dict_get k (dict_comprehension key val cond items)
  = val <$> last (filter (λ x, cond x = true ∧ key x = k) items).
Proof.
  unfold dict_comprehension.
  induction items as [|x items IH] using rev_ind; [done|].
  rewrite foldl_snoc, filter_app, filter_cons, filter_nil.
  destruct (cond x) eqn:Hc.
  - rewrite dict_get_setitem. destruct (decide (key x = k)) as [Hk|Hk].
    + rewrite decide_True by done. by rewrite last_snoc.
    + rewrite decide_False by (intros [_ ?]; done). by rewrite app_nil_r.
  - rewrite decide_False by (intros [? _]; done). by rewrite app_nil_r.
Qed.

Lemma dict_keys_comprehension (items : list A) k :
  k ∈ dict_keys (dict_comprehension key val cond items)
  ↔ ∃ x, x ∈ items ∧ cond x = true ∧ key x = k.
Proof.
  destruct (dict_get k (dict_comprehension key val cond items)) as [v|] eqn:Hg.
  - split.
    + intros _. rewrite dict_get_comprehension in Hg.
      apply fmap_Some in Hg as (x & Hx%last_Some_elem_of & _).
      apply list_elem_of_filter in Hx as [[Hc Hk] Hx]. eauto.
    + intros _. destruct (decide (k ∈ dict_keys (dict_comprehension key val cond items))) as [|Hn]; [done|].
      apply dict_get_None in Hn. congruence.
  - split.
    + intros Hin. by apply dict_get_None in Hg.
    + intros (x & Hx & Hc & Hk). exfalso.
      rewrite dict_get_comprehension in Hg. apply fmap_None, last_None in Hg.
      exact (filter_nil_not_elem_of _ items x Hg (conj Hc Hk) Hx).
Qed.

Lemma dict_comprehension_NoDup (items : list A) :
  NoDup (dict_keys (dict_comprehension key val cond items)).
Proof.
  unfold dict_comprehension.
  induction items as [|x items IH] using rev_ind; [apply NoDup_nil_2|].
  rewrite foldl_snoc. destruct (cond x); [|done].
  by apply dict_setitem_NoDup.
Qed.
End comprehension.

Lemma dict_comprehension_ext {A} (key key' : A → string) (val : A → V) cond
    (items : list A) :
  (∀ x, x ∈ items → key x = key' x) →
  dict_comprehension key val cond items = dict_comprehension key' val cond items.
Proof.
  unfold dict_comprehension.
  induction items as [|x items IH] using rev_ind; [done|].
  intros H. rewrite !foldl_snoc, IH.
  - rewrite (H x); [done|]. apply elem_of_app. right. apply list_elem_of_here.
  - intros y Hy. apply H, elem_of_app. by left.
Qed.
End dict_facts.

(** ** Facts about [to_dict] *)

Section to_dict_facts.
Implicit Types (self : request) (ak : gmap string (string * value))
  (oak : option (gmap string (string * value))) (ap : bool) (k f : string)
  (v : value).

Lemma to_dict_keys_allow ak ap :
  ak ≠ ∅ →
  to_dict_keys (Some ak) ap
  = (ak, Some (if ap then dom ak ∪ {["prompt"]} else dom ak)).
Proof.
  intros Hne. unfold to_dict_keys. rewrite bool_decide_eq_true_2 by done.
  by destruct ap.
Qed.

Lemma to_dict_keys_empty ap : to_dict_keys (Some ∅) ap = (∅, None).
Proof. unfold to_dict_keys. by rewrite bool_decide_eq_false_2 by auto. Qed.

Lemma external_name_empty k : external_name ∅ k = k.
Proof. unfold external_name. by rewrite lookup_empty. Qed.

Lemma external_name_lookup ak k e x :
  ak !! k = Some (e, x) → external_name ak k = e.
Proof. unfold external_name. by intros ->. Qed.

Lemma external_name_absent ak k : ak !! k = None → external_name ak k = k.
Proof. unfold external_name. by intros ->. Qed.

Lemma candidate_allow ak ap k :
  ak ≠ ∅ →
  candidate (Some ak) ap k ↔ k ∈ dom ak ∨ (ap = true ∧ k = "prompt").
Proof.
  intros Hne. unfold candidate, include_keys.
  rewrite to_dict_keys_allow by done. destruct ap; simpl.
  - rewrite elem_of_union, elem_of_singleton. tauto.
  - split; [by left | by intros [?|[? _]]].
Qed.

Lemma renaming_allow ak ap : ak ≠ ∅ → renaming (Some ak) ap = ak.
Proof. intros Hne. unfold renaming. by rewrite to_dict_keys_allow. Qed.

#[global] Instance candidate_dec oak ap k : Decision (candidate oak ap k).
Proof. unfold candidate. destruct (include_keys oak ap); apply _. Defined.

Lemma to_dict_unfold self oak ap :
  to_dict self oak ap
  = dict_comprehension (λ kv, external_name (renaming oak ap) kv.1)
      (λ kv, kv.2) (λ kv, negb (is_none kv.2))
      (dict self (include_keys oak ap)).
Proof.
  unfold to_dict, renaming, include_keys. by destruct (to_dict_keys oak ap).
Qed.

Lemma elem_of_dict self oak ap kv :
  kv ∈ dict self (include_keys oak ap) ↔ kv ∈ self ∧ candidate oak ap kv.1.
Proof.
  unfold candidate. destruct (include_keys oak ap); simpl.
  - rewrite list_elem_of_filter. tauto.
  - tauto.
Qed.

(** The keys of the result are the external names of the candidate fields
    that hold a value other than [None]. *)
Lemma elem_of_to_dict_keys self oak ap k :
  k ∈ dict_keys (to_dict self oak ap)
  ↔ ∃ f v, (f, v) ∈ self ∧ candidate oak ap f ∧ v ≠ VNone
           ∧ external_name (renaming oak ap) f = k.
Proof.
  rewrite to_dict_unfold, dict_keys_comprehension. split.
  - intros ([f v] & Hin & Hv & Hk). exists f, v.
    apply elem_of_dict in Hin as [Hin Hc]. apply not_none_true in Hv. done.
  - intros (f & v & Hin & Hc & Hv & Hk). exists (f, v).
    rewrite elem_of_dict, not_none_true. done.
Qed.

(** Every entry of the result is the value of such a field. *)
Lemma to_dict_get_Some self oak ap k v :
  dict_get k (to_dict self oak ap) = Some v →
  ∃ f, (f, v) ∈ self ∧ candidate oak ap f ∧ v ≠ VNone
       ∧ external_name (renaming oak ap) f = k.
Proof.
  rewrite to_dict_unfold, dict_get_comprehension.
  intros ([f w] & Hlast%last_Some_elem_of & ->)%fmap_Some.
  apply list_elem_of_filter in Hlast as [[Hv Hk] Hin].
  apply elem_of_dict in Hin as [Hin Hc]. apply not_none_true in Hv.
  exists f. done.
Qed.

(** A field that shares its external name with no other emitted field
    appears with its own value. *)
Lemma to_dict_get_unique self oak ap f v :
  NoDup (dict_keys self) →
  (f, v) ∈ self → candidate oak ap f → v ≠ VNone →
  (∀ g w, (g, w) ∈ self → g ≠ f → candidate oak ap g → w ≠ VNone →
          external_name (renaming oak ap) g ≠ external_name (renaming oak ap) f) →
  dict_get (external_name (renaming oak ap) f) (to_dict self oak ap) = Some v.
Proof.
  intros Hnd Hin Hc Hv Hothers.
  destruct (dict_get _ (to_dict self oak ap)) as [w|] eqn:Hg.
  - apply to_dict_get_Some in Hg as (g & Hg & Hcg & Hw & Hk).
    destruct (decide (g = f)) as [->|Hne].
    + apply (dict_get_unique _ _ _ Hnd) in Hg, Hin. congruence.
    + by destruct (Hothers g w).
  - apply dict_get_None in Hg. exfalso. apply Hg.
    apply elem_of_to_dict_keys. eauto 10.
Qed.

Lemma to_dict_NoDup self oak ap : NoDup (dict_keys (to_dict self oak ap)).
Proof. rewrite to_dict_unfold. apply dict_comprehension_NoDup. Qed.
End to_dict_facts.

(** ** Facts about the run on the object Exec.store *)

Module ExecFacts.

Section run.
Implicit Types (h : list Exec.object) (l : nat) (o : Exec.object).

Lemma bind_run {A B} (m : Exec.M A) (f : A → Exec.M B) h a h' :
  m h = (Exec.Ok a, h') → (m ≫= f) h = f a h'.
Proof. intros H. unfold mbind, Exec.M_bind. by rewrite H. Qed.

Lemma load_run h l o : h !! l = Some o → Exec.load l h = (Exec.Ok o, h).
Proof. intros H. unfold Exec.load. by rewrite H. Qed.

Lemma load_last h o : Exec.load (length h) (h ++ [o]) = (Exec.Ok o, h ++ [o]).
Proof. apply load_run, list_lookup_middle. done. Qed.

Lemma store_last h o o' :
  Exec.store (length h) o' (h ++ [o]) = (Exec.Ok (), h ++ [o']).
Proof.
  unfold Exec.store. f_equal.
  replace (length h) with (length h + 0)%nat by lia.
  by rewrite insert_app_r.
Qed.

Lemma get_run h l ak k dflt :
  h !! l = Some (Exec.OAllow ak) →
  Exec.get (Exec.RObj l) k dflt h = (Exec.Ok (default dflt (ak !! k)), h).
Proof. intros Hl. unfold Exec.get. by rewrite (bind_run _ _ _ _ _ (load_run _ _ _ Hl)). Qed.

Lemma setitem_last h acc k v :
  Exec.setitem (length h) k v (h ++ [Exec.ODict acc])
  = (Exec.Ok (), h ++ [Exec.ODict (dict_setitem k v acc)]).
Proof.
  unfold Exec.setitem. rewrite (bind_run _ _ _ _ _ (load_last _ _)).
  apply store_last.
Qed.

Lemma set_add_last h elems x :
  Exec.set_add (length h) x (h ++ [Exec.OSet elems])
  = (Exec.Ok (), h ++ [Exec.OSet (elems ∪ {[x]})]).
Proof.
  unfold Exec.set_add. rewrite (bind_run _ _ _ _ _ (load_last _ _)).
  apply store_last.
Qed.

Lemma dict_items_run h self attrs :
  h !! self = Some (Exec.ORequest attrs) →
  Exec.dict_items self Exec.RNone h = (Exec.Ok (dict attrs None), h).
Proof.
  intros Hs. unfold Exec.dict_items.
  by rewrite (bind_run _ _ _ _ _ (load_run _ _ _ Hs)).
Qed.

Lemma dict_items_include_run h self attrs s keys :
  h !! self = Some (Exec.ORequest attrs) → h !! s = Some (Exec.OSet keys) →
  Exec.dict_items self (Exec.RObj s) h = (Exec.Ok (dict attrs (Some keys)), h).
Proof.
  intros Hs Hk. unfold Exec.dict_items.
  rewrite (bind_run _ _ _ _ _ (load_run _ _ _ Hs)).
  by rewrite (bind_run _ _ _ _ _ (load_run _ _ _ Hk)).
Qed.

(** The loop leaves the Exec.store alone except for the result dictionary,
    which receives the entries of the comprehension. *)
Lemma for_each_run h l ak acc (items : list (string * value)) :
  h !! l = Some (Exec.OAllow ak) →
  Exec.for_each (λ kv : string * value,
              if is_none kv.2 then mret ()
              else entry ← Exec.get (Exec.RObj l) kv.1 (kv.1, VNone);
                   Exec.setitem (length h) entry.1 kv.2)
           items (h ++ [Exec.ODict acc])
  = (Exec.Ok (),
     h ++ [Exec.ODict (foldl (λ acc kv,
                           if negb (is_none kv.2)
                           then dict_setitem (external_name ak kv.1) kv.2 acc
                           else acc) acc items)]).
Proof.
  intros Hl. revert acc.
  induction items as [|[k v] items IH]; intros acc; [done|].
  cbn [Exec.for_each foldl fst snd]. destruct (is_none v); cbn [negb].
  - by rewrite (bind_run _ _ _ () (h ++ [Exec.ODict acc]) eq_refl).
  - erewrite bind_run; [apply IH|].
    erewrite bind_run; [apply setitem_last|].
    apply get_run, lookup_app_l_Some, Hl.
Qed.

(** A call on a request and on [None] or an allow-list returns a new
    dictionary, allocated after one temporary object, and changes nothing
    else; the dictionary is the one [to_dict] computes. *)
(** The part of the method after the [if] statement. *)
Lemma to_dict_tail_run h tmp self attrs l ak include :
  (h ++ [tmp]) !! self = Some (Exec.ORequest attrs) →
  (h ++ [tmp]) !! l = Some (Exec.OAllow ak) →
  Exec.alloc (Exec.ODict []) (h ++ [tmp])
  = (Exec.Ok (S (length h)), (h ++ [tmp]) ++ [Exec.ODict []]) ∧
  (Exec.for_each
     (λ kv : string * value,
        if is_none kv.2 then mret ()
        else entry ← Exec.get (Exec.RObj l) kv.1 (kv.1, VNone);
             Exec.setitem (S (length h)) entry.1 kv.2)
     (dict attrs include);; mret (S (length h)))
    ((h ++ [tmp]) ++ [Exec.ODict []])
  = (Exec.Ok (S (length h)),
     h ++ [tmp;
           Exec.ODict
             (dict_comprehension (λ kv, external_name ak kv.1) (λ kv, kv.2)
                (λ kv, negb (is_none kv.2)) (dict attrs include))]).
Proof.
  intros Hs Hl.
  assert (Hlen : length (h ++ [tmp]) = S (length h))
    by (rewrite length_app; simpl; lia).
  split.
  - unfold Exec.alloc. by rewrite Hlen.
  - rewrite <-Hlen.
    rewrite (bind_run _ _ _ _ _ (for_each_run _ _ _ _ _ Hl)).
    by rewrite <-(assoc_L (++)).
Qed.

(** A call on a request and on [None] or an allow-list returns a new
    dictionary, allocated after one temporary object, and changes nothing
    else; the dictionary is the one [to_dict] computes. *)
Lemma to_dict_run h self attrs r oak ap :
  h !! self = Some (Exec.ORequest attrs) →
  Exec.allow_at h r = Some oak →
  ∃ tmp,
    Exec.to_dict self r ap h
    = (Exec.Ok (S (length h)),
       h ++ [tmp; Exec.ODict (to_dict attrs oak ap)]).
Proof.
  intros Hs Ha. unfold Exec.to_dict.
  assert (Hself : ∀ tmp, (h ++ [tmp]) !! self = Some (Exec.ORequest attrs))
    by (intros; by apply lookup_app_l_Some).
  assert (Hfresh : ∀ ak,
    (Exec.alloc (Exec.OAllow ∅)
     ≫= λ allowable_keys, mret (Exec.RObj allowable_keys, Exec.RNone)) h
    = (Exec.Ok (Exec.RObj (length h), Exec.RNone), h ++ [Exec.OAllow ∅])
    ∧ (h ++ [Exec.OAllow ∅]) !! length h = Some (Exec.OAllow ∅)
    ∧ (ak = None ∨ ak = Some ∅ →
       to_dict attrs ak ap
       = dict_comprehension (λ kv, external_name ∅ kv.1) (λ kv, kv.2)
           (λ kv, negb (is_none kv.2)) (dict attrs None))).
  { intros ak. split_and!; [done | by apply list_lookup_middle |].
    intros [->| ->]; rewrite to_dict_unfold; unfold renaming, include_keys;
      by rewrite ?to_dict_keys_empty. }
  destruct r as [|l]; simpl in Ha.
  - injection Ha as <-. exists (Exec.OAllow ∅).
    destruct (Hfresh None) as (Halloc & Hl & Hpure).
    destruct (to_dict_tail_run h (Exec.OAllow ∅) self attrs (length h) ∅ None
                (Hself _) Hl) as [Hrd Hloop].
    rewrite (bind_run _ _ h false h eq_refl).
    rewrite (bind_run _ _ _ _ _ Halloc).
    rewrite (bind_run _ _ _ _ _ (dict_items_run _ _ _ (Hself _))).
    rewrite (bind_run _ _ _ _ _ Hrd), Hloop, Hpure; auto.
  - destruct (h !! l) as [[| ak | |]|] eqn:Hl; try done.
    injection Ha as <-.
    rewrite (bind_run _ _ h (bool_decide (ak ≠ ∅)) h)
      by (unfold Exec.truthy; by rewrite (bind_run _ _ _ _ _ (load_run _ _ _ Hl))).
    destruct (decide (ak = ∅)) as [->|Hne].
    + exists (Exec.OAllow ∅).
      destruct (Hfresh (Some ∅)) as (Halloc & Hl' & Hpure).
      destruct (to_dict_tail_run h (Exec.OAllow ∅) self attrs (length h) ∅ None
                  (Hself _) Hl') as [Hrd Hloop].
      rewrite bool_decide_eq_false_2 by auto.
      rewrite (bind_run _ _ _ _ _ Halloc).
      rewrite (bind_run _ _ _ _ _ (dict_items_run _ _ _ (Hself _))).
      rewrite (bind_run _ _ _ _ _ Hrd), Hloop, Hpure; auto.
    + rewrite bool_decide_eq_true_2 by done.
      set (keys := if ap then dom ak ∪ {["prompt"]} else dom ak).
      exists (Exec.OSet keys).
      assert (Hl' : (h ++ [Exec.OSet keys]) !! l = Some (Exec.OAllow ak))
        by (by apply lookup_app_l_Some).
      destruct (to_dict_tail_run h (Exec.OSet keys) self attrs l ak (Some keys)
                  (Hself _) Hl') as [Hrd Hloop].
      assert (Hif :
        (include_keys ← Exec.set_of_keys (Exec.RObj l);
         (if ap && str_truthy "prompt"
          then Exec.set_add include_keys "prompt" else mret ());;
         mret (Exec.RObj l, Exec.RObj include_keys)) h
        = (Exec.Ok (Exec.RObj l, Exec.RObj (length h)), h ++ [Exec.OSet keys])).
      { rewrite (bind_run _ _ h (length h) (h ++ [Exec.OSet (dom ak)]))
          by (unfold Exec.set_of_keys;
              by rewrite (bind_run _ _ _ _ _ (load_run _ _ _ Hl))).
        subst keys. destruct ap; simpl.
        - by rewrite (bind_run _ _ _ _ _ (set_add_last _ _ _)).
        - done. }
      rewrite (bind_run _ _ _ _ _ Hif).
      rewrite (bind_run _ _ _ _ _
                 (dict_items_include_run _ _ _ _ _ (Hself _)
                    (list_lookup_middle _ _ _ _ eq_refl))).
      rewrite (bind_run _ _ _ _ _ Hrd), Hloop.
      rewrite to_dict_unfold. unfold renaming, include_keys.
      by rewrite to_dict_keys_allow.
Qed.
End run.

End ExecFacts.

(** ** Well-formed requests *)

Lemma construct_keys cls overrides :
  dict_keys (construct cls overrides) = dict_keys (fields cls).
Proof.
  unfold construct, dict_keys. rewrite <-list_fmap_compose. done.
Qed.

Lemma fields_NoDup cls : NoDup (dict_keys (fields cls)).
Proof. destruct cls; refine (bool_decide_unpack _ _); vm_compute; exact I. Qed.

(** The attribute dictionary of a constructed request has one entry per
    field. *)
Lemma construct_NoDup cls overrides :
  NoDup (dict_keys (construct cls overrides)).
Proof. rewrite construct_keys. apply fields_NoDup. Qed.

(** No entry of the result holds [None]. *)
Lemma to_dict_not_none self oak ap k v :
  dict_get k (to_dict self oak ap) = Some v → v ≠ VNone.
Proof. intros (f & _ & _ & Hv & _)%to_dict_get_Some. done. Qed.

(** ** The default request *)

(** C1, counterexample: the default [Request], normalized with no allow-list
    and [add_prompt=True], has keys other than [prompt]. *)
Lemma default_request_not_prompt_only :
  ¬ (∀ k, k ∈ dict_keys (to_dict (construct Request []) None true)
          → k = "prompt").
Proof.
  intros H. specialize (H "engine"). discriminate H.
  vm_compute. apply list_elem_of_further, list_elem_of_here.
Qed.

(** C1, amended: for every request class, the request constructed with every
    field at its default, normalized with no allow-list and
    [add_prompt=True], yields every field whose default is not [None], under
    the field's own name, with its default value and in field order; the
    fields whose default is [None] are absent.  For [Request] these are
    [prompt], [engine], [n], [client_timeout] and [batch_size]. *)
Theorem to_dict_defaults :
  (∀ cls,
     to_dict (construct cls []) None true
     = filter (λ kv, is_none kv.2 = false)
         (map (λ d : declaration, (d.1, d.2.2)) (fields cls)))
  ∧ to_dict (construct Request []) None true
    = [ ("prompt", VStr ""); ("engine", VStr "text-ada-001"); ("n", VInt 1);
        ("client_timeout", VInt 120); ("batch_size", VInt 8) ].
Proof.
  split; [intros cls; destruct cls|]; vm_compute; reflexivity.
Qed.

(** ** Dropped fields *)

(** C2, counterexample: [run_id] is [None] in the default [Request], and with
    the allow-list [{"engine": ("run_id", None)}] its external name is a key
    of the result all the same. *)
Lemma null_field_name_emitted :
  ¬ (dict_get "run_id" (construct Request []) = Some VNone →
     external_name (renaming (Some {["engine" := ("run_id", VNone)]}) true)
       "run_id"
     ∉ dict_keys (to_dict (construct Request [])
                    (Some {["engine" := ("run_id", VNone)]}) true)).
Proof.
  intros H. apply H; [reflexivity|].
  vm_compute. apply list_elem_of_further, list_elem_of_here.
Qed.

(** C2, amended: a field whose value is [None], or that is not in the
    candidate set, contributes no entry, whatever the allow-list and
    [add_prompt]: its external name is not a key of the result, provided no
    other candidate field with a value other than [None] has the same
    external name. *)
Theorem dropped_field_not_emitted self oak ap f :
  NoDup (dict_keys self) →
  dict_get f self = Some VNone ∨ ¬ candidate oak ap f →
  (∀ g w, (g, w) ∈ self → g ≠ f → candidate oak ap g → w ≠ VNone →
          external_name (renaming oak ap) g ≠ external_name (renaming oak ap) f) →
  external_name (renaming oak ap) f ∉ dict_keys (to_dict self oak ap).
Proof.
  intros Hnd Hf Hothers (g & w & Hin & Hc & Hw & Hk)%elem_of_to_dict_keys.
  destruct (decide (g = f)) as [->|Hne].
  - destruct Hf as [Hnull|Hnc]; [|done].
    apply (dict_get_unique _ _ _ Hnd) in Hin. congruence.
  - by apply (Hothers g w).
Qed.

Lemma dropped_field_not_emitted_witness :
  external_name (renaming (Some DEFAULT_REQUEST_KEYS) true) "run_id"
  ∉ dict_keys (to_dict (construct Request []) (Some DEFAULT_REQUEST_KEYS) true).
Proof.
  apply (dropped_field_not_emitted (construct Request [])
           (Some DEFAULT_REQUEST_KEYS) true "run_id").
  - apply construct_NoDup.
  - left. reflexivity.
  - intros g w Hin Hne _ _. each_field Hin; distinct_names Hne.
Defined.

(** ** The prompt and the allow-list *)

(** C3, counterexample: with the allow-list [{"engine": ("prompt", None)}]
    and [add_prompt=True] the prompt ["p"] is a candidate, and yet no entry of
    the result holds it: the engine, processed later, is written under the
    key [prompt]. *)
Lemma prompt_value_overwritten :
  ¬ (dict_get "prompt" (construct Request [("prompt", VStr "p")])
     = Some (VStr "p") →
     ∃ k, dict_get k
            (to_dict (construct Request [("prompt", VStr "p")])
               (Some {["engine" := ("prompt", VNone)]}) true)
          = Some (VStr "p")).
Proof.
  intros H. destruct H as [k Hk]; [reflexivity|].
  assert (Heq :
    to_dict (construct Request [("prompt", VStr "p")])
      (Some {["engine" := ("prompt", VNone)]}) true
    = [("prompt", VStr "text-ada-001")]) by (vm_compute; reflexivity).
  rewrite Heq in Hk. cbn [dict_get] in Hk.
  destruct (decide ("prompt" = k)); discriminate Hk.
Qed.

(** C3, amended: with a non-empty allow-list and [add_prompt=True] the
    candidate set is the allow-list's keys plus [prompt], also when [prompt]
    is no key of the allow-list; so for a prompt other than [None] the
    prompt's external name ([prompt] itself when the allow-list has no entry
    for it) is a key of the result, and the entry under it holds the
    prompt's value provided no other candidate field with a value other than
    [None] has the same external name. *)
Theorem prompt_kept ak :
  ak ≠ ∅ →
  include_keys (Some ak) true = Some (dom ak ∪ {["prompt"]})
  ∧ candidate (Some ak) true "prompt"
  ∧ ∀ self v,
      dict_get "prompt" self = Some v → v ≠ VNone →
      external_name ak "prompt" ∈ dict_keys (to_dict self (Some ak) true)
      ∧ (ak !! "prompt" = None →
         "prompt" ∈ dict_keys (to_dict self (Some ak) true))
      ∧ (NoDup (dict_keys self) →
         (∀ g w, (g, w) ∈ self → g ≠ "prompt" →
                 candidate (Some ak) true g → w ≠ VNone →
                 external_name ak g ≠ external_name ak "prompt") →
         dict_get (external_name ak "prompt") (to_dict self (Some ak) true)
         = Some v).
Proof.
  intros Hne.
  assert (Hc : candidate (Some ak) true "prompt")
    by (apply candidate_allow; auto).
  split_and!; [|done|].
  { unfold include_keys. by rewrite to_dict_keys_allow. }
  intros self v Hin%dict_get_elem_of Hv.
  assert (Hkey : external_name ak "prompt"
                 ∈ dict_keys (to_dict self (Some ak) true)).
  { apply elem_of_to_dict_keys. exists "prompt", v.
    by rewrite renaming_allow. }
  split_and!; [done| |].
  - intros Habs. by rewrite <-(external_name_absent ak "prompt").
  - intros Hnd Hothers.
    pose proof (to_dict_get_unique self (Some ak) true "prompt" v
                  Hnd Hin Hc Hv) as Hget.
    rewrite renaming_allow in Hget by exact Hne.
    exact (Hget Hothers).
Qed.

Lemma prompt_kept_witness :
  include_keys (Some {["temperature" := ("temp", VNone)]}) true
  = Some (dom ({["temperature" := ("temp", VNone)]}
               : gmap string (string * value)) ∪ {["prompt"]})
  ∧ dict_get "prompt"
      (to_dict (construct LMRequest [("prompt", VStr "Hello")])
         (Some {["temperature" := ("temp", VNone)]}) true)
    = Some (VStr "Hello").
Proof.
  destruct (prompt_kept {["temperature" := ("temp", VNone)]})
    as (Hinc & _ & Hprompt).
  { apply insert_non_empty. }
  split; [exact Hinc|].
  destruct (Hprompt (construct LMRequest [("prompt", VStr "Hello")])
              (VStr "Hello")) as (_ & _ & Hval).
  { reflexivity. }
  { discriminate. }
  apply Hval.
  - apply construct_NoDup.
  - intros g w Hin Hne _ _. each_field Hin; distinct_names Hne.
Defined.

(** C4: an [LMRequest] with [temperature=0.9], [max_tokens=50] and every
    other field at its default, normalized with the allow-list
    [{"temperature": ("temp", None)}] and [add_prompt=True], gives exactly
    the two entries [temp: 0.9] and [prompt: ""] (the request's prompt);
    [max_tokens], which is no key of the allow-list, is absent. *)
Theorem to_dict_temperature_example :
  to_dict (construct LMRequest
             [("temperature", VFloat float_0_9); ("max_tokens", VInt 50)])
    (Some {["temperature" := ("temp", VNone)]}) true
  = [("prompt", VStr ""); ("temp", VFloat float_0_9)]
  ∧ dict_equal
      (to_dict (construct LMRequest
                  [("temperature", VFloat float_0_9); ("max_tokens", VInt 50)])
         (Some {["temperature" := ("temp", VNone)]}) true)
      [("temp", VFloat float_0_9); ("prompt", VStr "")]
  ∧ dict_get "prompt"
      (construct LMRequest
         [("temperature", VFloat float_0_9); ("max_tokens", VInt 50)])
    = Some (VStr "")
  ∧ "max_tokens"
    ∉ dict_keys
        (to_dict (construct LMRequest
                    [("temperature", VFloat float_0_9); ("max_tokens", VInt 50)])
           (Some {["temperature" := ("temp", VNone)]}) true).
Proof.
  assert (Heq :
    to_dict (construct LMRequest
               [("temperature", VFloat float_0_9); ("max_tokens", VInt 50)])
      (Some {["temperature" := ("temp", VNone)]}) true
    = [("prompt", VStr ""); ("temp", VFloat float_0_9)])
    by (vm_compute; reflexivity).
  split_and!; [done| |reflexivity|].
  - intros k. rewrite Heq. simpl.
    destruct (decide ("prompt" = k)) as [Hp|Hp],
             (decide ("temp" = k)) as [Ht|Ht]; try reflexivity.
    subst k. discriminate Ht.
  - rewrite Heq. vm_compute. intros Hin.
    repeat (apply elem_of_cons in Hin as [Hin|Hin]; [discriminate Hin|]).
    by apply elem_of_nil in Hin.
Qed.

(** C5, counterexample: the allow-list [{"engine": ("prompt", None)}] is not
    empty and has no key [prompt], and the result for [add_prompt=False]
    has a key [prompt]. *)
Lemma prompt_key_from_renaming :
  ¬ (({["engine" := ("prompt", VNone)]} : gmap string (string * value)) ≠ ∅ →
     ({["engine" := ("prompt", VNone)]} : gmap string (string * value))
       !! "prompt" = None →
     "prompt" ∉ dict_keys (to_dict (construct Request [])
                             (Some {["engine" := ("prompt", VNone)]}) false)).
Proof.
  intros H. apply H.
  - apply insert_non_empty.
  - reflexivity.
  - vm_compute. apply list_elem_of_here.
Qed.

(** C5, amended: with a non-empty allow-list that has no key [prompt] and
    that gives the external name [prompt] to no field holding a value other
    than [None], the result for [add_prompt=False] has no key [prompt],
    whatever the request's prompt is. *)
Theorem prompt_dropped self ak :
  ak ≠ ∅ →
  ak !! "prompt" = None →
  (∀ g w e x, (g, w) ∈ self → w ≠ VNone → ak !! g = Some (e, x) →
              e ≠ "prompt") →
  "prompt" ∉ dict_keys (to_dict self (Some ak) false).
Proof.
  intros Hne Habs Hnames (g & w & Hin & Hc & Hw & Hk)%elem_of_to_dict_keys.
  rewrite renaming_allow in Hk by done.
  apply candidate_allow in Hc as [Hdom|[? _]]; [|done..].
  apply elem_of_dom in Hdom as [[e x] Hg].
  rewrite (external_name_lookup _ _ _ _ Hg) in Hk.
  by apply (Hnames g w e x).
Qed.

Lemma prompt_dropped_witness :
  "prompt"
  ∉ dict_keys (to_dict (construct Request [("prompt", VStr "Hello")])
                 (Some {["engine" := ("model", VNone)]}) false).
Proof.
  apply prompt_dropped.
  - apply insert_non_empty.
  - reflexivity.
  - intros g w e x Hin _ Hg.
    destruct (decide (g = "engine")) as [->|Hne].
    + rewrite lookup_singleton_eq in Hg. by injection Hg as <- _.
    + by rewrite lookup_singleton_ne in Hg.
Defined.

(** ** The chat request *)

(** C6 (evaluation of the code): [LMChatRequest] declares [prompt] as
    [List[Dict[str, str]]], and the default written next to it is the empty
    dictionary, which a default-constructed chat request holds as it is:
    the default is not an instance of the declared type, and it is not the
    empty list. *)
Theorem chat_prompt_default :
  dict_get "prompt" (fields LMChatRequest)
  = Some (TList (TDict TStr TStr), VDict [])
  ∧ dict_get "prompt" (construct LMChatRequest []) = Some (VDict [])
  ∧ conforms (TList (TDict TStr TStr)) (VDict []) = false
  ∧ conforms (TList (TDict TStr TStr)) (VList []) = true
  ∧ VDict [] ≠ VList []
  ∧ dict_keys (fields LMChatRequest) = dict_keys (fields LMRequest).
Proof. split_and!; try reflexivity. discriminate. Qed.

(** ** The second component of the allow-list *)

Lemma external_name_fst (ak : gmap string (string * value)) k :
  external_name ak k = default k ((fst <$> ak) !! k).
Proof. unfold external_name. rewrite lookup_fmap. by destruct (ak !! k). Qed.

Lemma to_dict_keys_fst (ak1 ak2 : gmap string (string * value)) ap :
  fst <$> ak1 = fst <$> ak2 →
  (to_dict_keys (Some ak1) ap).2 = (to_dict_keys (Some ak2) ap).2
  ∧ ∀ k, external_name (to_dict_keys (Some ak1) ap).1 k
         = external_name (to_dict_keys (Some ak2) ap).1 k.
Proof.
  intros Hfst.
  assert (Hdom : dom ak1 = dom ak2).
  { by rewrite <-(dom_fmap_L fst ak1), Hfst, dom_fmap_L. }
  destruct (decide (ak1 = ∅)) as [->|Hne1].
  - rewrite fmap_empty in Hfst. symmetry in Hfst.
    apply fmap_empty_iff in Hfst as ->. done.
  - assert (Hne2 : ak2 ≠ ∅).
    { intros ->. rewrite fmap_empty in Hfst. by apply fmap_empty_iff in Hfst. }
    rewrite !to_dict_keys_allow by done. simpl. rewrite Hdom.
    split; [done|]. intros k. by rewrite !external_name_fst, Hfst.
Qed.

(** C7: the result does not depend on the second components of the
    allow-list's tuples: two allow-lists with the same keys and the same
    external names give the same result, for every request and either value
    of [add_prompt]. *)
Theorem to_dict_ignores_second self
    (oak1 oak2 : option (gmap string (string * value))) ap :
  fmap (M := gmap string) fst <$> oak1 = fmap (M := gmap string) fst <$> oak2 →
  to_dict self oak1 ap = to_dict self oak2 ap.
Proof.
  intros Hfst. destruct oak1 as [ak1|], oak2 as [ak2|]; try done.
  injection Hfst as Hfst.
  destruct (to_dict_keys_fst ak1 ak2 ap Hfst) as [Hinc Hname].
  rewrite !to_dict_unfold. unfold include_keys, renaming. rewrite Hinc.
  apply dict_comprehension_ext. intros kv _. apply Hname.
Qed.

Lemma to_dict_ignores_second_witness :
  to_dict (construct Request []) (Some DEFAULT_REQUEST_KEYS) true
  = to_dict (construct Request [])
      (Some (<["client_timeout" := ("client_timeout", VNone)]>
             (<["batch_size" := ("batch_size", VStr "eight")]>
             (<["run_id" := ("run_id", VInt 7)]> ∅)))) true.
Proof.
  apply to_dict_ignores_second. vm_compute. reflexivity.
Defined.

(** ** Allow-lists that reuse an external name *)

Lemma dict_app (l1 l2 : list (string * value)) include :
  dict (l1 ++ l2) include = dict l1 include ++ dict l2 include.
Proof. destruct include; [apply filter_app | done]. Qed.

Lemma dict_cons_candidate oak ap f v (l : list (string * value)) :
  candidate oak ap f →
  dict ((f, v) :: l) (include_keys oak ap)
  = (f, v) :: dict l (include_keys oak ap).
Proof.
  unfold candidate. destruct (include_keys oak ap); [|done].
  intros Hc. by apply filter_cons_True.
Qed.



(** ** Totality and absence of side effects *)

Lemma allow_at_prefix (h h1 : list Exec.object) r oak :
  h `prefix_of` h1 → Exec.allow_at h r = Some oak → Exec.allow_at h1 r = Some oak.
Proof.
  intros Hpre. destruct r as [|l]; simpl; [done|].
  destruct (h !! l) as [o|] eqn:Hl; [|done].
  by rewrite (prefix_lookup_Some _ _ _ _ Hl Hpre).
Qed.

(** One call: it returns a dictionary at a location that was free, and the
    store it leaves extends the one it started from. *)
Lemma to_dict_run_frame (h : list Exec.object) self attrs r oak ap :
  h !! self = Some (Exec.ORequest attrs) →
  Exec.allow_at h r = Some oak →
  ∃ d h1,
    Exec.to_dict self r ap h = (Exec.Ok d, h1)
    ∧ h `prefix_of` h1
    ∧ h !! d = None
    ∧ h1 !! d = Some (Exec.ODict (to_dict attrs oak ap)).
Proof.
  intros Hs Ha.
  destruct (ExecFacts.to_dict_run h self attrs r oak ap Hs Ha) as [tmp Hrun].
  eexists _, _. split_and!; [exact Hrun|..].
  - by eexists.
  - apply lookup_ge_None. lia.
  - replace (h ++ [tmp; Exec.ODict (to_dict attrs oak ap)])
      with ((h ++ [tmp]) ++ [Exec.ODict (to_dict attrs oak ap)])
      by (by rewrite <-(assoc_L (++))).
    apply list_lookup_middle. rewrite length_app. simpl. lia.
Qed.

(** C9: on every request (of any class), with [None] or any allow-list and
    either value of [add_prompt], [to_dict] raises nothing and returns a
    dictionary; the call only adds objects to the store, so the request and
    the allow-list are what they were; and a second call with the same
    arguments returns a dictionary with the same entries, the first result
    being untouched. *)
Theorem to_dict_total_pure (h : list Exec.object) self attrs r oak ap :
  h !! self = Some (Exec.ORequest attrs) →
  Exec.allow_at h r = Some oak →
  ∃ d h1,
    Exec.to_dict self r ap h = (Exec.Ok d, h1)
    ∧ h `prefix_of` h1
    ∧ h1 !! self = Some (Exec.ORequest attrs)
    ∧ Exec.allow_at h1 r = Some oak
    ∧ h !! d = None
    ∧ h1 !! d = Some (Exec.ODict (to_dict attrs oak ap))
    ∧ ∃ d' h2,
        Exec.to_dict self r ap h1 = (Exec.Ok d', h2)
        ∧ h1 `prefix_of` h2
        ∧ h2 !! d' = Some (Exec.ODict (to_dict attrs oak ap))
        ∧ h2 !! d = Some (Exec.ODict (to_dict attrs oak ap)).
Proof.
  intros Hs Ha.
  destruct (to_dict_run_frame h self attrs r oak ap Hs Ha)
    as (d & h1 & Hrun & Hpre & Hfresh & Hd).
  pose proof (prefix_lookup_Some _ _ _ _ Hs Hpre) as Hs1.
  pose proof (allow_at_prefix _ _ _ _ Hpre Ha) as Ha1.
  destruct (to_dict_run_frame h1 self attrs r oak ap Hs1 Ha1)
    as (d' & h2 & Hrun' & Hpre' & _ & Hd').
  exists d, h1. split_and!; try done.
  exists d', h2. split_and!; try done.
  exact (prefix_lookup_Some _ _ _ _ Hd Hpre').
Qed.

Lemma to_dict_total_pure_witness :
  ∃ d h1,
    Exec.to_dict 0 (Exec.RObj 1) false
      [Exec.ORequest (construct DiffusionRequest []);
       Exec.OAllow DEFAULT_REQUEST_KEYS]
    = (Exec.Ok d, h1)
    ∧ h1 !! d
      = Some (Exec.ODict (to_dict (construct DiffusionRequest [])
                            (Some DEFAULT_REQUEST_KEYS) false)).
Proof.
  destruct (to_dict_total_pure
              [Exec.ORequest (construct DiffusionRequest []);
               Exec.OAllow DEFAULT_REQUEST_KEYS]
              0%nat (construct DiffusionRequest []) (Exec.RObj 1)
              (Some DEFAULT_REQUEST_KEYS) false)
    as (d & h1 & Hrun & _ & _ & _ & _ & Hd & _).
  - reflexivity.
  - reflexivity.
  - exists d, h1. split; [exact Hrun | exact Hd].
Defined.

(** ** No allow-list *)

Lemma to_dict_keys_no_allow_list oak ap :
  oak = None ∨ oak = Some ∅ → to_dict_keys oak ap = (∅, None).
Proof. intros [->| ->]; [done | apply to_dict_keys_empty]. Qed.

(** C10: with no allow-list ([None] or the empty dictionary) [add_prompt]
    has no effect: the results for [add_prompt=False] and [add_prompt=True]
    are the same, and a prompt other than [None] is in the result for
    [add_prompt=False], under the key [prompt]. *)
Theorem add_prompt_ignored_without_allow_list self oak :
  oak = None ∨ oak = Some ∅ →
  to_dict self oak false = to_dict self oak true
  ∧ ∀ v, NoDup (dict_keys self) →
         dict_get "prompt" self = Some v → v ≠ VNone →
         dict_get "prompt" (to_dict self oak false) = Some v.
Proof.
  intros Hoak.
  pose proof (to_dict_keys_no_allow_list oak false Hoak) as Hf.
  pose proof (to_dict_keys_no_allow_list oak true Hoak) as Ht.
  split.
  - rewrite !to_dict_unfold. unfold renaming, include_keys. by rewrite Hf, Ht.
  - intros v Hnd Hin%dict_get_elem_of Hv.
    assert (Hren : renaming oak false = ∅) by (unfold renaming; by rewrite Hf).
    assert (Hcand : ∀ g, candidate oak false g)
      by (intros g; unfold candidate, include_keys; by rewrite Hf).
    pose proof (to_dict_get_unique self oak false "prompt" v
                  Hnd Hin (Hcand _) Hv) as Hget.
    rewrite Hren, external_name_empty in Hget. apply Hget.
    intros g w _ Hg _ _. by rewrite external_name_empty.
Qed.

Lemma add_prompt_ignored_without_allow_list_witness :
  to_dict (construct LMChatRequest []) None false
  = to_dict (construct LMChatRequest []) None true
  ∧ dict_get "prompt" (to_dict (construct LMChatRequest []) None false)
    = Some (VDict []).
Proof.
  destruct (add_prompt_ignored_without_allow_list
              (construct LMChatRequest []) None) as [Heq Hprompt].
  - left. reflexivity.
  - split; [exact Heq|]. apply Hprompt.
    + apply construct_NoDup.
    + reflexivity.
    + discriminate.
Defined.

(** * Further properties of [to_dict] *)

(** ** Results without name collisions *)

Lemma dict_setitem_fresh {V : Type} k (v : V) (d : list (string * V)) :
  k ∉ dict_keys d → dict_setitem k v d = d ++ [(k, v)].
Proof.
  unfold dict_keys. induction d as [|[k0 v0] d IH]; [done|].
  rewrite fmap_cons, not_elem_of_cons. intros [Hne Hnin].
  cbn [dict_setitem]. destruct (decide (k0 = k)) as [->|_]; [done|].
  by rewrite IH.
Qed.

(** When the keys written are pairwise distinct, the comprehension is the
    list of its entries, in the order of the items. *)
Lemma dict_comprehension_distinct {V A : Type}
    (key : A → string) (val : A → V) (cond : A → bool) (items : list A) :
  NoDup (key <$> filter (λ x, cond x = true) items) →
  dict_comprehension key val cond items
  = (λ x, (key x, val x)) <$> filter (λ x, cond x = true) items.
Proof.
  unfold dict_comprehension.
  induction items as [|x items IH] using rev_ind; [done|].
  rewrite foldl_snoc, filter_app, filter_cons, filter_nil.
  destruct (cond x) eqn:Hc.
  - rewrite decide_True by done. rewrite !fmap_app.
    intros (Hnd & Hfresh & _)%NoDup_app. rewrite IH by done.
    apply dict_setitem_fresh. unfold dict_keys. rewrite <-list_fmap_compose.
    intros Hin. apply (Hfresh _ Hin). apply list_elem_of_here.
  - rewrite decide_False by done. rewrite !app_nil_r. apply IH.
Qed.

Lemma filter_keys_NoDup {V : Type} (P : string * V → Prop)
    `{!∀ x, Decision (P x)} (l : list (string * V)) :
  NoDup (dict_keys l) → NoDup (dict_keys (filter P l)).
Proof.
  unfold dict_keys. induction l as [|[k v] l IH]; [done|].
  rewrite fmap_cons, NoDup_cons, filter_cons. intros [Hk Hnd].
  destruct (decide (P (k, v))); [|auto].
  rewrite fmap_cons, NoDup_cons. split; [|auto].
  intros ([k' v'] & Heq & Hin)%list_elem_of_fmap. simpl in Heq. subst k'.
  apply list_elem_of_filter in Hin as [_ Hin].
  apply Hk. exact (list_elem_of_fmap_2' fst l (k, v') k Hin eq_refl).
Qed.

Lemma emitted_NoDup self oak ap :
  NoDup (dict_keys self) → NoDup (dict_keys (emitted self oak ap)).
Proof.
  intros Hnd. unfold emitted. apply filter_keys_NoDup.
  unfold dict. destruct (include_keys oak ap); [|done].
  by apply filter_keys_NoDup.
Qed.

Lemma fmap_rename_id {V : Type} (ren : string → string) (l : list (string * V)) :
  (∀ k, ren k = k) →
  (λ kv, ren kv.1) <$> l = dict_keys l ∧ (λ kv, (ren kv.1, kv.2)) <$> l = l.
Proof.
  intros Hid. unfold dict_keys. induction l as [|[k v] l [IH1 IH2]]; [done|].
  rewrite !fmap_cons, IH1, IH2. simpl. by rewrite Hid.
Qed.

(** With a renaming that changes no name, the result is the list of the
    emitted fields. *)
Lemma to_dict_identity_renaming self oak ap :
  NoDup (dict_keys self) →
  (∀ k, external_name (renaming oak ap) k = k) →
  to_dict self oak ap = emitted self oak ap.
Proof.
  intros Hnd Hid.
  destruct (fmap_rename_id (external_name (renaming oak ap))
              (emitted self oak ap) Hid) as [Hkeys Hentries].
  rewrite to_dict_unfold, dict_comprehension_distinct.
  - exact Hentries.
  - fold (emitted self oak ap). rewrite Hkeys. by apply emitted_NoDup.
Qed.

(** X1: the keys of the result are exactly the external names of the
    candidate fields that hold a value other than [None]; and every entry
    holds the value of such a field, never [None]. *)
Theorem to_dict_entries self oak ap k :
  (k ∈ dict_keys (to_dict self oak ap)
   ↔ ∃ f v, (f, v) ∈ self ∧ candidate oak ap f ∧ v ≠ VNone
            ∧ external_name (renaming oak ap) f = k)
  ∧ ∀ v, dict_get k (to_dict self oak ap) = Some v →
         v ≠ VNone
         ∧ ∃ f, (f, v) ∈ self ∧ candidate oak ap f
                ∧ external_name (renaming oak ap) f = k.
Proof.
  split; [apply elem_of_to_dict_keys|].
  intros v (f & Hin & Hc & Hv & Hk)%to_dict_get_Some. eauto.
Qed.

(** X2: when the emitted fields have pairwise distinct external names, the
    result is exactly those fields, renamed, in the order of the request's
    fields. *)
Theorem to_dict_in_field_order self oak ap :
  NoDup ((λ kv, external_name (renaming oak ap) kv.1) <$> emitted self oak ap) →
  to_dict self oak ap
  = (λ kv, (external_name (renaming oak ap) kv.1, kv.2))
      <$> emitted self oak ap.
Proof.
  intros Hnd. rewrite to_dict_unfold. by apply dict_comprehension_distinct.
Qed.

Lemma to_dict_in_field_order_witness :
  to_dict (construct Request [("run_id", VStr "r1")])
    (Some (<["engine" := ("model", VNone)]> {["run_id" := ("id", VNone)]}))
    true
  = [("prompt", VStr ""); ("model", VStr "text-ada-001"); ("id", VStr "r1")].
Proof.
  rewrite to_dict_in_field_order.
  - vm_compute. reflexivity.
  - refine (bool_decide_unpack _ _). vm_compute. exact I.
Defined.

(** X3: with no allow-list ([None] or the empty dictionary) the result is
    the request's own entries without those holding [None], under the
    fields' own names and in field order, whatever [add_prompt] is. *)
Theorem to_dict_without_allow_list self oak ap :
  NoDup (dict_keys self) →
  oak = None ∨ oak = Some ∅ →
  to_dict self oak ap = filter (λ kv, negb (is_none kv.2) = true) self.
Proof.
  intros Hnd Hoak.
  pose proof (to_dict_keys_no_allow_list oak ap Hoak) as Hkeys.
  rewrite to_dict_identity_renaming; [|done|].
  - unfold emitted, include_keys. by rewrite Hkeys.
  - intros k. unfold renaming. rewrite Hkeys. apply external_name_empty.
Qed.

Lemma to_dict_without_allow_list_witness :
  to_dict (construct DiffusionRequest [("run_id", VStr "r1")]) (Some ∅) false
  = filter (λ kv, negb (is_none kv.2) = true)
      (construct DiffusionRequest [("run_id", VStr "r1")]).
Proof.
  apply to_dict_without_allow_list.
  - apply construct_NoDup.
  - right. reflexivity.
Defined.

Lemma to_dict_entries_witness :
  VStr "text-ada-001" ≠ VNone
  ∧ ∃ f, (f, VStr "text-ada-001") ∈ construct Request []
         ∧ candidate (Some {["engine" := ("model", VNone)]}) false f
         ∧ external_name (renaming (Some {["engine" := ("model", VNone)]}) false) f
           = "model".
Proof.
  apply (proj2 (to_dict_entries (construct Request [])
                  (Some {["engine" := ("model", VNone)]}) false "model")).
  vm_compute. reflexivity.
Defined.

(** ** Allow-lists that rename nothing *)

(** X4: an allow-list whose entries all map a name to itself acts as a
    filter: the result is the candidate fields that hold a value, under
    their own names and in field order.  [DEFAULT_REQUEST_KEYS] is such an
    allow-list. *)
Theorem to_dict_identity_allow_list self (ak : gmap string (string * value)) ap :
  NoDup (dict_keys self) →
  ak ≠ ∅ →
  (∀ k e x, ak !! k = Some (e, x) → e = k) →
  to_dict self (Some ak) ap
  = filter (λ kv, negb (is_none kv.2) = true)
      (filter (λ kv, kv.1 ∈ (if ap then dom ak ∪ {["prompt"]} else dom ak)) self).
Proof.
  intros Hnd Hne Hid.
  rewrite to_dict_identity_renaming; [|done|].
  - unfold emitted, include_keys. by rewrite to_dict_keys_allow.
  - intros k. rewrite renaming_allow by done.
    destruct (ak !! k) as [[e x]|] eqn:Hk.
    + rewrite (external_name_lookup _ _ _ _ Hk). by apply (Hid k e x).
    + by apply external_name_absent.
Qed.

Lemma to_dict_identity_allow_list_witness :
  to_dict (construct LMRequest [("run_id", VStr "r1")])
    (Some DEFAULT_REQUEST_KEYS) true
  = [("prompt", VStr ""); ("client_timeout", VInt 120);
     ("run_id", VStr "r1"); ("batch_size", VInt 8)].
Proof.
  rewrite to_dict_identity_allow_list.
  - vm_compute. reflexivity.
  - apply construct_NoDup.
  - apply insert_non_empty.
  - intros k e x. unfold DEFAULT_REQUEST_KEYS.
    rewrite !lookup_insert, lookup_empty.
    destruct (decide ("client_timeout" = k)) as [<-|_];
      [by intros [= <- _]|].
    destruct (decide ("batch_size" = k)) as [<-|_]; [by intros [= <- _]|].
    destruct (decide ("run_id" = k)) as [<-|_]; [by intros [= <- _]|].
    discriminate.
Defined.

(** ** The [add_prompt] flag *)

(** X5: when [prompt] is a key of the allow-list, [add_prompt] makes no
    difference. *)
Theorem add_prompt_redundant self (ak : gmap string (string * value)) :
  "prompt" ∈ dom ak →
  to_dict self (Some ak) true = to_dict self (Some ak) false.
Proof.
  intros Hin.
  assert (Hne : ak ≠ ∅).
  { intros ->. rewrite dom_empty_L in Hin. by apply not_elem_of_empty in Hin. }
  assert (Hdom : dom ak ∪ {["prompt"]} = dom ak).
  { rewrite (comm_L (∪)). apply subseteq_union_1_L.
    by apply singleton_subseteq_l. }
  rewrite !to_dict_unfold. unfold renaming, include_keys.
  rewrite !to_dict_keys_allow by done. by rewrite Hdom.
Qed.

Lemma add_prompt_redundant_witness :
  to_dict (construct Request [("prompt", VStr "Hello")])
    (Some {["prompt" := ("text", VNone)]}) true
  = to_dict (construct Request [("prompt", VStr "Hello")])
      (Some {["prompt" := ("text", VNone)]}) false.
Proof.
  apply add_prompt_redundant.
  rewrite dom_singleton_L. by apply elem_of_singleton.
Defined.

Lemma filter_filter_congr {A : Type} (P Q1 Q2 : A → Prop)
    `{!∀ x, Decision (P x)} `{!∀ x, Decision (Q1 x)} `{!∀ x, Decision (Q2 x)}
    (l : list A) :
  (∀ x, P x → (Q1 x ↔ Q2 x)) →
  filter P (filter Q1 l) = filter P (filter Q2 l).
Proof.
  intros Hequiv. induction l as [|x l IH]; [done|].
  rewrite !(filter_cons _ x).
  destruct (decide (Q1 x)) as [Hq1|Hq1], (decide (Q2 x)) as [Hq2|Hq2];
    rewrite ?filter_cons, ?IH; try done.
  - destruct (decide (P x)) as [HP|HP]; [|done].
    exfalso. apply Hq2. by apply (Hequiv x HP).
  - destruct (decide (P x)) as [HP|HP]; [|done].
    exfalso. apply Hq1. by apply (Hequiv x HP).
Qed.

(** X6: with a non-empty allow-list that has no key [prompt], [add_prompt]
    changes nothing but the entry under the key [prompt]: every other key
    has the same entry, or none, for both values of the flag. *)
Theorem add_prompt_only_affects_prompt self
    (ak : gmap string (string * value)) k :
  ak ≠ ∅ →
  ak !! "prompt" = None →
  k ≠ "prompt" →
  dict_get k (to_dict self (Some ak) true)
  = dict_get k (to_dict self (Some ak) false).
Proof.
  intros Hne Habs Hk.
  rewrite !to_dict_unfold, !dict_get_comprehension.
  unfold renaming, include_keys. rewrite !to_dict_keys_allow by done.
  cbn [fst snd dict]. f_equal. f_equal.
  apply filter_filter_congr. intros [f v] [_ Hname]. simpl in *.
  rewrite elem_of_union, elem_of_singleton. split; [|by left].
  intros [Hdom| ->]; [done|].
  by rewrite (external_name_absent _ _ Habs) in Hname.
Qed.

Lemma add_prompt_only_affects_prompt_witness :
  dict_get "model"
    (to_dict (construct Request []) (Some {["engine" := ("model", VNone)]}) true)
  = dict_get "model"
      (to_dict (construct Request []) (Some {["engine" := ("model", VNone)]})
         false).
Proof.
  apply add_prompt_only_affects_prompt.
  - apply insert_non_empty.
  - reflexivity.
  - discriminate.
Defined.

(** ** Fields that do not count *)

Lemma dict_cons_not_candidate oak ap f v (l : list (string * value)) :
  ¬ candidate oak ap f →
  dict ((f, v) :: l) (include_keys oak ap) = dict l (include_keys oak ap).
Proof.
  unfold candidate. destruct (include_keys oak ap); [|done].
  intros Hc. by apply filter_cons_False.
Qed.

(** X7: a field that holds [None], or that is not in the candidate set, can
    be taken out of the request without changing the result, whatever the
    allow-list; such a field has no influence on any entry. *)
Theorem inert_field_removable pre post f v oak ap :
  v = VNone ∨ ¬ candidate oak ap f →
  to_dict (pre ++ (f, v) :: post) oak ap = to_dict (pre ++ post) oak ap.
Proof.
  intros Hinert. rewrite !to_dict_unfold, !dict_app.
  destruct (decide (candidate oak ap f)) as [Hc|Hc].
  - destruct Hinert as [->|Hn]; [|by destruct Hn].
    rewrite dict_cons_candidate by exact Hc.
    unfold dict_comprehension. rewrite !foldl_app. reflexivity.
  - by rewrite dict_cons_not_candidate.
Qed.

Lemma inert_field_removable_witness :
  to_dict ([("prompt", VStr "Hi")] ++ ("engine", VStr "text-ada-001")
           :: [("run_id", VStr "r1")])
    (Some DEFAULT_REQUEST_KEYS) true
  = to_dict ([("prompt", VStr "Hi")] ++ [("run_id", VStr "r1")])
      (Some DEFAULT_REQUEST_KEYS) true.
Proof.
  apply inert_field_removable. right.
  intros Hc.
  destruct (proj1 (candidate_allow _ _ _ (insert_non_empty _ _ _)) Hc)
    as [Hdom|[_ Heq]]; [|discriminate Heq].
  unfold DEFAULT_REQUEST_KEYS in Hdom.
  rewrite !dom_insert_L, dom_empty_L in Hdom.
  repeat (apply elem_of_union in Hdom as [Hdom|Hdom];
          [apply elem_of_singleton in Hdom; discriminate Hdom|]).
  by apply not_elem_of_empty in Hdom.
Defined.

(** ** Construction followed by [to_dict] *)

Lemma dict_get_fmap_value {V W : Type} (g : string → V → W)
    (l : list (string * V)) k :
  dict_get k ((λ d, (d.1, g d.1 d.2)) <$> l) = g k <$> dict_get k l.
Proof.
  induction l as [|[k0 v0] l IH]; [done|].
  rewrite fmap_cons. cbn [dict_get fst snd].
  destruct (decide (k0 = k)) as [->|_]; [done | exact IH].
Qed.

Lemma dict_get_filter_value (Q : value → bool) (l : list (string * value)) k :
  NoDup (dict_keys l) →
  dict_get k (filter (λ kv, Q kv.2 = true) l)
  = match dict_get k l with
    | Some v => if Q v then Some v else None
    | None => None
    end.
Proof.
  unfold dict_keys. induction l as [|[k0 v0] l IH]; [done|].
  rewrite fmap_cons, NoDup_cons. intros [Hk0 Hnd].
  rewrite filter_cons.
  destruct (decide (Q (k0, v0).2 = true)) as [Hq|Hq]; simpl in Hq;
    cbn [dict_get]; destruct (decide (k0 = k)) as [->|Hne].
  - by rewrite Hq.
  - by apply IH.
  - apply not_true_is_false in Hq. rewrite Hq. apply dict_get_None.
    intros ([k' v'] & Heq & Hin)%list_elem_of_fmap. simpl in Heq. subst k'.
    apply list_elem_of_filter in Hin as [_ Hin].
    apply Hk0. exact (list_elem_of_fmap_2' fst l (k, v') k Hin eq_refl).
  - by apply IH.
Qed.

(** X8: for every class and every set of keyword overrides of exactly the
    declared types, the request constructed from them and normalized with no
    allow-list gives, under the name of each field of the class, the
    override when there is one and the declared default otherwise, unless
    that value is [None]; names that are no field of the class have no
    entry. *)
Theorem construct_to_dict cls overrides ap k :
  overrides_well_typed cls overrides = true →
  dict_get k (to_dict (construct cls overrides) None ap)
  = match dict_get k (fields cls) with
    | Some (_, dflt) =>
        if is_none (default dflt (dict_get k overrides)) then None
        else Some (default dflt (dict_get k overrides))
    | None => None
    end.
Proof.
  intros _.
  rewrite to_dict_identity_renaming;
    [|apply construct_NoDup | intros; apply external_name_empty].
  change (emitted (construct cls overrides) None ap)
    with (filter (λ kv : string * value, negb (is_none kv.2) = true)
            (construct cls overrides)).
  rewrite (dict_get_filter_value (λ v, negb (is_none v)))
    by apply construct_NoDup.
  unfold construct.
  rewrite (dict_get_fmap_value
             (λ name (d : annotation * value),
                default d.2 (dict_get name overrides))).
  destruct (dict_get k (fields cls)) as [[t dflt]|]; [|done].
  cbn [fmap option_fmap option_map snd].
  by destruct (is_none (default dflt (dict_get k overrides))).
Qed.

Lemma construct_to_dict_witness :
  overrides_well_typed LMRequest
    [("temperature", VFloat float_0_9); ("run_id", VStr "r1");
     ("stop_sequences", VList [VStr "."])] = true
  ∧ dict_get "temperature"
      (to_dict (construct LMRequest
                  [("temperature", VFloat float_0_9); ("run_id", VStr "r1");
                   ("stop_sequences", VList [VStr "."])]) None false)
    = Some (VFloat float_0_9).
Proof.
  split; [reflexivity|].
  exact (construct_to_dict LMRequest
           [("temperature", VFloat float_0_9); ("run_id", VStr "r1");
            ("stop_sequences", VList [VStr "."])] false "temperature" eq_refl).
Defined.

(** ** The result is a new object *)

(** X9: the dictionary that a call returns is an object of its own: an
    assignment to one of its keys afterwards changes that dictionary and
    leaves the request and the allow-list as they were. *)
Theorem result_is_fresh_object (h : list Exec.object) self attrs r oak ap
    d h1 k v :
  h !! self = Some (Exec.ORequest attrs) →
  Exec.allow_at h r = Some oak →
  Exec.to_dict self r ap h = (Exec.Ok d, h1) →
  ∃ h2,
    Exec.setitem d k v h1 = (Exec.Ok (), h2)
    ∧ h2 !! d = Some (Exec.ODict (dict_setitem k v (to_dict attrs oak ap)))
    ∧ h2 !! self = Some (Exec.ORequest attrs)
    ∧ Exec.allow_at h2 r = Some oak.
Proof.
  intros Hs Ha Hrun.
  destruct (ExecFacts.to_dict_run h self attrs r oak ap Hs Ha) as [tmp Hrun'].
  rewrite Hrun in Hrun'. injection Hrun' as -> ->.
  assert (Hlen : length (h ++ [tmp]) = S (length h))
    by (rewrite length_app; simpl; lia).
  exists ((h ++ [tmp]) ++ [Exec.ODict (dict_setitem k v (to_dict attrs oak ap))]).
  assert (Hpre : h `prefix_of`
            (h ++ [tmp]) ++ [Exec.ODict (dict_setitem k v (to_dict attrs oak ap))]).
  { rewrite <-(assoc_L (++)). by eexists. }
  split_and!.
  - rewrite <-Hlen.
    replace (h ++ [tmp; Exec.ODict (to_dict attrs oak ap)])
      with ((h ++ [tmp]) ++ [Exec.ODict (to_dict attrs oak ap)])
      by (by rewrite <-(assoc_L (++))).
    apply ExecFacts.setitem_last.
  - rewrite <-Hlen. by apply list_lookup_middle.
  - exact (prefix_lookup_Some _ _ _ _ Hs Hpre).
  - exact (allow_at_prefix _ _ _ _ Hpre Ha).
Qed.

Lemma result_is_fresh_object_witness :
  ∃ h2,
    Exec.setitem 2 "engine" (VStr "other")
      [Exec.ORequest (construct Request []); Exec.OAllow ∅;
       Exec.ODict (to_dict (construct Request []) None true)]
    = (Exec.Ok (), h2)
    ∧ h2 !! 0%nat = Some (Exec.ORequest (construct Request [])).
Proof.
  destruct (result_is_fresh_object
              [Exec.ORequest (construct Request [])] 0%nat
              (construct Request []) Exec.RNone None true 2%nat
              [Exec.ORequest (construct Request []); Exec.OAllow ∅;
               Exec.ODict (to_dict (construct Request []) None true)]
              "engine" (VStr "other"))
    as (h2 & Hset & _ & Hself & _).
  - reflexivity.
  - reflexivity.
  - vm_compute. reflexivity.
  - exists h2. split; [exact Hset | exact Hself].
Defined.
